(** * Voting zkApp (src/src/Voting.ts): a shallow embedding and its properties

    The contract keeps a Merkle root committing to an off-chain set of voter
    records, two vote counters and two opaque metadata fields.  Its two
    methods, [init] and [vote], are embedded below as computations in a
    small transaction monad: a method reads the on-chain state, records
    preconditions and state updates in an account update, allocates fresh
    JavaScript objects, and may fail an assertion.  The account update is
    applied to the ledger only when the method ran to completion.  The
    script around the contract (its off-chain [Voters] and [Tree], the
    set-up and its own [vote] function) is embedded over the same
    definitions. *)

From Stdlib Require Import String ZArith List Bool Lia.
Import ListNotations.
Open Scope Z_scope.

(** ** Values of the proving framework *)

(** A native field element.  Only equality and the addition of small
    operands are used by the contract, so field elements are kept as
    integers. *)
Definition Field := Z.

(** A [UInt32] is a JavaScript object wrapping a field element: [oid] is the
    identity of the object (what [===] compares), [value] its content. *)
Record UInt32 := mkUInt32 { oid : nat; value : Field }.

Definition UInt32_MAX : Z := 2 ^ 32 - 1.

Record PublicKey := mkPublicKey { pk_x : Field; pk_isOdd : bool }.

(** [class Voter extends Struct({ publicKey: PublicKey, decision: UInt32 })] *)
Record Voter := mkVoter { publicKey : PublicKey; decision : UInt32 }.

(** A membership proof: the sibling hash and the direction at every level,
    from the leaf upwards ([true]: the node on the path is the left child). *)
Definition MyMerkleWitness := list (Field * bool).

(** ** On-chain state *)

(** The five [@state] fields of [Voting]. *)
Record ZkappState := mkState {
  root : Field;
  agreeVotes : Field;
  disagreeVotes : Field;
  title : Field;
  description : Field
}.

Inductive Slot := Root | AgreeVotes | DisagreeVotes | Title | Description.

Definition Slot_eqb (a b : Slot) : bool :=
  match a, b with
  | Root, Root | AgreeVotes, AgreeVotes | DisagreeVotes, DisagreeVotes
  | Title, Title | Description, Description => true
  | _, _ => false
  end.

Definition get_slot (s : Slot) (st : ZkappState) : Field :=
  match s with
  | Root => root st
  | AgreeVotes => agreeVotes st
  | DisagreeVotes => disagreeVotes st
  | Title => title st
  | Description => description st
  end.

Definition set_slot (s : Slot) (v : Field) (st : ZkappState) : ZkappState :=
  match s with
  | Root => mkState v (agreeVotes st) (disagreeVotes st) (title st) (description st)
  | AgreeVotes => mkState (root st) v (disagreeVotes st) (title st) (description st)
  | DisagreeVotes => mkState (root st) (agreeVotes st) v (title st) (description st)
  | Title => mkState (root st) (agreeVotes st) (disagreeVotes st) v (description st)
  | Description => mkState (root st) (agreeVotes st) (disagreeVotes st) (title st) v
  end.

(** ** The transaction monad *)

(** What a running method sees and builds: the on-chain state it reads
    ([State.get] never sees the method's own pending writes), the next
    unused object identity, and the account update under construction
    (preconditions and state updates, in program order, and the
    precondition on the account's [provedState] flag when one was set). *)
Record Tx := mkUpdate {
  onchain : ZkappState;
  heap : nat;
  preconditions : list (Slot * Field);
  updates : list (Slot * Field);
  provedState_precondition : option bool
}.

(** A context whose account update has no precondition on the account. *)
Definition mkTx (st : ZkappState) (h : nat) (pre upd : list (Slot * Field))
  : Tx :=
  mkUpdate st h pre upd None.

Definition M (A : Type) : Type := Tx -> option (A * Tx).

Definition ret {A} (a : A) : M A := fun t => Some (a, t).

Definition bind {A B} (m : M A) (k : A -> M B) : M B :=
  fun t => match m t with
           | Some (a, t') => k a t'
           | None => None
           end.

Definition fail {A} : M A := fun _ => None.

Notation "x <- m ;; k" := (bind m (fun x => k))
  (at level 61, m at next level, right associativity).
Notation "m ;; k" := (bind m (fun _ => k))
  (at level 61, right associativity).

(** The context after one allocation. *)
Definition bump (t : Tx) : Tx :=
  mkUpdate (onchain t) (S (heap t)) (preconditions t) (updates t)
    (provedState_precondition t).

(** A failed assertion aborts the method: no account update is produced. *)
Definition assert (b : bool) : M unit := if b then ret tt else fail.

(** [new UInt32(v)]: a fresh object. *)
Definition new_UInt32 (v : Field) : M UInt32 :=
  fun t => Some (mkUInt32 (heap t) v, bump t).

(** [UInt32.from(n)] for a number [n]: checks the constant fits 32 bits and
    wraps it in a new object. *)
Definition UInt32_from (n : Z) : M UInt32 :=
  assert ((0 <=? n) && (n <=? UInt32_MAX)) ;;
  new_UInt32 n.

(** [a.add(n)]: the sum is range-checked to 32 bits (an overflow fails the
    check) and returned as a new object. *)
Definition UInt32_add (a : UInt32) (n : Z) : M UInt32 :=
  y <- UInt32_from n ;;
  let z := value a + value y in
  assert ((0 <=? z) && (z <=? UInt32_MAX)) ;;
  new_UInt32 z.

Definition UInt32_assertLessThan (a b : UInt32) : M unit :=
  assert (value a <? value b).

(** [a.assertGreaterThan(b)] is [b.assertLessThan(a)]. *)
Definition UInt32_assertGreaterThan (a b : UInt32) : M unit :=
  UInt32_assertLessThan b a.

Definition Field_assertEquals (a b : Field) : M unit := assert (a =? b).

(** JavaScript [===] on two objects: reference identity. *)
Definition strict_eq (a b : UInt32) : bool := Nat.eqb (oid a) (oid b).

(** [State<Field>.get()] *)
Definition State_get (s : Slot) : M Field :=
  fun t => Some (get_slot s (onchain t), t).

(** [State<UInt32>.get()]: the stored value wrapped in a new object. *)
Definition State_get_UInt32 (s : Slot) : M UInt32 :=
  v <- State_get s ;; new_UInt32 v.

(** [State.requireEquals(v)]: a precondition of the account update. *)
Definition State_requireEquals (s : Slot) (v : Field) : M unit :=
  fun t => Some (tt, mkUpdate (onchain t) (heap t)
                          (preconditions t ++ [(s, v)]) (updates t)
                          (provedState_precondition t)).

(** [State.set(v)]: an update of the account update. *)
Definition State_set (s : Slot) (v : Field) : M unit :=
  fun t => Some (tt, mkUpdate (onchain t) (heap t)
                          (preconditions t) (updates t ++ [(s, v)])
                          (provedState_precondition t)).

(** [this.account.provedState.requireEquals(b)]: a precondition on the
    account itself. *)
Definition Account_provedState_requireEquals (b : bool) : M unit :=
  fun t => Some (tt, mkUpdate (onchain t) (heap t)
                          (preconditions t) (updates t) (Some b)).

(** The ledger applies an account update when every precondition holds of
    the current state; the updates are then written in order. *)
Definition holds (st : ZkappState) (p : Slot * Field) : bool :=
  get_slot (fst p) st =? snd p.

Definition write (st : ZkappState) (u : Slot * Field) : ZkappState :=
  set_slot (fst u) (snd u) st.

Definition commit (st : ZkappState) (t : Tx) : option ZkappState :=
  if forallb (holds st) (preconditions t)
  then Some (fold_left write (updates t) st)
  else None.

(** Proving and sending, against ledger state [st], a call of a method that
    puts no precondition on the account; [h] is the first unused object
    identity. *)
Definition transaction (st : ZkappState) (h : nat) (m : M unit)
  : option ZkappState :=
  match m (mkTx st h [] []) with
  | Some (_, t) => commit st t
  | None => None
  end.

(** A zkApp account on the ledger: its app state, and [provedState],
    which tells whether that state was last written in full by a proof. *)
Record Account := mkAccount { provedState : bool; appState : ZkappState }.

Definition account_holds (a : Account) (t : Tx) : bool :=
  match provedState_precondition t with
  | Some b => Bool.eqb (provedState a) b
  | None => true
  end.

(** The account update writes every state field. *)
Definition sets_all_state (t : Tx) : bool :=
  forallb (fun s => existsb (fun u => Slot_eqb (fst u) s) (updates t))
    [Root; AgreeVotes; DisagreeVotes; Title; Description].

(** The ledger applies the account update of a method (authorised by its
    proof) to an account: the precondition on [provedState] and those on
    the state must hold; [provedState] becomes true when the update writes
    the whole state and is kept otherwise. *)
Definition apply_update (a : Account) (t : Tx) : option Account :=
  if account_holds a t then
    match commit (appState a) t with
    | Some st' => Some (mkAccount (provedState a || sets_all_state t) st')
    | None => None
    end
  else None.

(** Proving and sending a method call against an account. *)
Definition account_transaction (a : Account) (h : nat) (m : M unit)
  : option Account :=
  match m (mkTx (appState a) h [] []) with
  | Some (_, t) => apply_update a t
  | None => None
  end.

(** The ledger state after a transaction: a rejected one leaves it as it was. *)
Definition state_after (st : ZkappState) (r : option ZkappState) : ZkappState :=
  match r with
  | Some st' => st'
  | None => st
  end.

(** ** The contract *)

Section Contract.

(** [Poseidon.hash]: the framework's hash function, kept abstract. *)
Variable Poseidon_hash : list Field -> Field.

Definition PublicKey_toFields (k : PublicKey) : list Field :=
  [pk_x k; if pk_isOdd k then 1 else 0].

(** [Voter.toFields]: the fields of the struct in declaration order. *)
Definition Voter_toFields (v : Voter) : list Field :=
  PublicKey_toFields (publicKey v) ++ [value (decision v)].

(** [Voter.hash] *)
Definition Voter_hash (v : Voter) : Field :=
  Poseidon_hash (Voter_toFields v).

(** [Voter.setDecision] *)
Definition Voter_setDecision (v : Voter) (d : UInt32) : Voter :=
  mkVoter (publicKey v) d.

(** Modelled from the spec: [MerkleWitness(8).calculateRoot] belongs to the
    proving framework and is not part of the repository.  A membership
    proof is an ordered sequence of (sibling-hash, direction) pairs from
    which the root is recomputed from a leaf hash, each internal node being
    the hash of its two children. *)
Fixpoint calculateRoot (w : MyMerkleWitness) (leaf : Field) : Field :=
  match w with
  | [] => leaf
  | (sibling, isLeft) :: w' =>
      calculateRoot w'
        (Poseidon_hash (if isLeft then [leaf; sibling] else [sibling; leaf]))
  end.

(** The initialisation of the framework's base contract: it requires that
    the account is not in proved state yet, and resets every on-chain
    state field to [Field(0)]. *)
Definition super_init : M unit :=
  Account_provedState_requireEquals false ;;
  State_set Root 0 ;;
  State_set AgreeVotes 0 ;;
  State_set DisagreeVotes 0 ;;
  State_set Title 0 ;;
  State_set Description 0.

(** [Voting.init]; [initialRoot] is the module-level variable the method
    reads. *)
Definition init (initialRoot : Field) : M unit :=
  super_init ;;
  State_set Root initialRoot ;;
  z <- UInt32_from 0 ;;
  State_set AgreeVotes (value z) ;;
  z' <- UInt32_from 0 ;;
  State_set DisagreeVotes (value z').

(** [Voting.vote] *)
Definition vote (voter : Voter) (decision : UInt32) (path : MyMerkleWitness)
  : M unit :=
  root <- State_get Root ;;
  State_requireEquals Root root ;;
  zero <- UInt32_from 0 ;;
  let voter := Voter_setDecision voter zero in
  zero' <- UInt32_from 0 ;;
  UInt32_assertGreaterThan decision zero' ;;
  three <- UInt32_from 3 ;;
  UInt32_assertLessThan decision three ;;
  Field_assertEquals (calculateRoot path (Voter_hash voter)) root ;;
  let newVoter := Voter_setDecision voter decision in
  let newRoot := calculateRoot path (Voter_hash newVoter) in
  one <- UInt32_from 1 ;;
  (if strict_eq decision one then
     a <- State_get_UInt32 AgreeVotes ;;
     State_requireEquals AgreeVotes (value a) ;;
     currentAgreeVotes <- State_get_UInt32 AgreeVotes ;;
     s <- UInt32_add currentAgreeVotes 1 ;;
     State_set AgreeVotes (value s)
   else
     d <- State_get_UInt32 DisagreeVotes ;;
     State_requireEquals DisagreeVotes (value d) ;;
     currentDisagreeVotes <- State_get_UInt32 DisagreeVotes ;;
     s <- UInt32_add currentDisagreeVotes 1 ;;
     State_set AgreeVotes (value s)) ;;
  State_set Root newRoot.

(** An identity above those of all the given objects. *)
Definition fresh_above (ids : list nat) : nat := S (list_max ids).

(** A call of [vote] as a transaction on ledger state [st].  Objects created
    while the method runs are new: their identities differ from those of
    the objects the caller passes in. *)
Definition call_vote (st : ZkappState) (voter : Voter) (d : UInt32)
    (path : MyMerkleWitness) : option ZkappState :=
  transaction st (fresh_above [oid d; oid (decision voter)])
    (vote voter d path).

(** [init] as a transaction on an account. *)
Definition deploy_init (a : Account) (initialRoot : Field) : option Account :=
  account_transaction a 0%nat (init initialRoot).

(** Deploying the contract: [init] on an account that is not in proved
    state yet and has app state [st]. *)
Definition call_init (st : ZkappState) (initialRoot : Field)
  : option ZkappState :=
  option_map appState (deploy_init (mkAccount false st) initialRoot).

(** The states the contract can be in: deployed with some initial root,
    then any number of accepted votes. *)
Inductive reachable (initialRoot : Field) : ZkappState -> Prop :=
| reachable_init st0 st :
    call_init st0 initialRoot = Some st -> reachable initialRoot st
| reachable_vote st voter d path st' :
    reachable initialRoot st ->
    call_vote st voter d path = Some st' ->
    reachable initialRoot st'.

(** The supplied record with its decision zeroed, as line 66 of the method
    builds it (which zero object is used does not matter to the hash). *)
Definition zeroed (voter : Voter) : Voter :=
  Voter_setDecision voter (mkUInt32 0 0).

(** The three assertions of [vote]: the decision bounds and the membership
    check against the committed root. *)
Definition validation (st : ZkappState) (voter : Voter) (d : UInt32)
    (path : MyMerkleWitness) : bool :=
  (0 <? value d) && (value d <? 3)
  && (calculateRoot path (Voter_hash (zeroed voter)) =? root st).

(** The 32-bit range check of [currentDisagreeVotes.add(1)]. *)
Definition counter_fits (st : ZkappState) : bool :=
  (0 <=? disagreeVotes st + 1) && (disagreeVotes st + 1 <=? UInt32_MAX).

(** The counter whose precondition and value the tally update reads, as a
    function of the outcome of [decision === UInt32.from(1)]. *)
Definition tally_slot (same : bool) : Slot :=
  if same then AgreeVotes else DisagreeVotes.

(** The slots a run of a method writes are among [allowed]. *)
Definition writes_within (allowed : list Slot) (r : option (unit * Tx)) : bool :=
  match r with
  | Some (_, t) =>
      forallb (fun u => existsb (Slot_eqb (fst u)) allowed) (updates t)
  | None => true
  end.

(** ** The off-chain store *)

(** Modelled from the spec: the authenticated set is the framework's
    [MerkleTree], which is not part of the repository.  It is a binary hash
    tree of fixed height over an indexed sequence of leaf hashes (absent
    leaves are [Field(0)]); each internal node is the hash of its two
    children and the root summarises all leaves.  A tree of height [h] has
    [h] levels of nodes, the leaves being level 0 and the root level
    [h - 1]. *)
Record MerkleTree := mkTree { height : nat; leaves : nat -> Field }.

Definition MerkleTree_new (h : nat) : MerkleTree := mkTree h (fun _ => 0).

Fixpoint getNode (lv : nat -> Field) (level index : nat) : Field :=
  match level with
  | O => lv index
  | S l => Poseidon_hash [getNode lv l (2 * index); getNode lv l (2 * index + 1)]
  end.

Definition getRoot (t : MerkleTree) : Field :=
  getNode (leaves t) (height t - 1) 0.

Definition update_leaf (lv : nat -> Field) (index : nat) (leaf : Field)
  : nat -> Field :=
  fun j => if Nat.eqb j index then leaf else lv j.

(** Modelled from the spec: [commit(index, newRecord)] updates the leaf and
    recomputes the root. *)
Definition setLeaf (t : MerkleTree) (index : nat) (leaf : Field) : MerkleTree :=
  mkTree (height t) (update_leaf (leaves t) index leaf).

Fixpoint witness_from (lv : nat -> Field) (level n index : nat)
  : MyMerkleWitness :=
  match n with
  | O => []
  | S n' =>
      let isLeft := Nat.even index in
      (getNode lv level (if isLeft then index + 1 else index - 1), isLeft)
        :: witness_from lv (S level) n' (Nat.div2 index)
  end.

(** Modelled from the spec: [witnessFor(index)], the sibling hashes and
    directions from the leaf at [index] up to the root. *)
Definition getWitness (t : MerkleTree) (index : nat) : MyMerkleWitness :=
  witness_from (leaves t) 0 (height t - 1) index.

End Contract.

(** ** The demonstration run of the script *)

Module Demo.

(** A stand-in for the hash function, for evaluating the contract on
    concrete inputs. *)
Definition demo_hash (l : list Field) : Field :=
  fold_left (fun acc v => (acc * 31 + v + 7) mod 1000003) l 1.

(** The four voters of the off-chain store, all undecided. *)
Definition Bob : Voter := mkVoter (mkPublicKey 101 false) (mkUInt32 0 0).
Definition Alice : Voter := mkVoter (mkPublicKey 102 true) (mkUInt32 1 0).
Definition Charlie : Voter := mkVoter (mkPublicKey 103 false) (mkUInt32 2 0).
Definition Olivia : Voter := mkVoter (mkPublicKey 104 true) (mkUInt32 3 0).

(** [const Tree = new MerkleTree(8)] with the four leaves set. *)
Definition Tree : MerkleTree :=
  setLeaf
    (setLeaf
       (setLeaf
          (setLeaf (MerkleTree_new 8) 0 (Voter_hash demo_hash Bob))
          1 (Voter_hash demo_hash Alice))
       2 (Voter_hash demo_hash Charlie))
    3 (Voter_hash demo_hash Olivia).

Definition initialRoot : Field := getRoot demo_hash Tree.

(** The account before deployment. *)
Definition blank : ZkappState := mkState 0 0 0 0 0.

(** The contract as deployed by the script. *)
Definition deployed : ZkappState := mkState initialRoot 0 0 0 0.

(** The decisions passed to [vote]: agree and disagree. *)
Definition agree : UInt32 := mkUInt32 4 1.
Definition disagree : UInt32 := mkUInt32 5 2.

(** The off-chain store after Bob's vote [d] has been mirrored into it. *)
Definition Tree_after_Bob (d : UInt32) : MerkleTree :=
  setLeaf Tree 0 (Voter_hash demo_hash (Voter_setDecision Bob d)).

(** The contract after the script's [vote('Bob', 0n, UInt32.from(1))]. *)
Definition after_Bob : ZkappState :=
  state_after deployed
    (call_vote demo_hash deployed Bob agree (getWitness demo_hash Tree 0)).

End Demo.

(** ** The script around the contract *)

(** The off-chain storage of the script: a JavaScript [Map] from names to
    voters, which keeps its keys in insertion order. *)
Definition VoterMap := list (string * Voter).

(** [Map.get]: [None] stands for [undefined]. *)
Fixpoint Map_get (m : VoterMap) (key : string) : option Voter :=
  match m with
  | [] => None
  | (k, v) :: m' => if String.eqb k key then Some v else Map_get m' key
  end.

(** [Map.set]: a present key keeps its place and takes the new value, a new
    key goes last. *)
Fixpoint Map_set (m : VoterMap) (key : string) (v : Voter) : VoterMap :=
  match m with
  | [] => [(key, v)]
  | (k, v0) :: m' =>
      if String.eqb k key then (k, v) :: m' else (k, v0) :: Map_set m' key v
  end.

(** [new Map(entries)] *)
Definition Map_new (entries : list (string * Voter)) : VoterMap :=
  fold_left (fun m e => Map_set m (fst e) (snd e)) entries [].

(** [array.map((element, index) => ...)] *)
Fixpoint Array_map {A B : Type} (f : A -> nat -> B) (l : list A) (index : nat)
  : list B :=
  match l with
  | [] => []
  | a :: l' => f a index :: Array_map f l' (S index)
  end.

(** What the script holds: the module-level [Voters] and [Tree], and the
    state of the deployed [contract] on the local ledger. *)
Record World := mkWorld {
  store_Voters : VoterMap;
  store_Tree : MerkleTree;
  zkapp : ZkappState
}.

(** How a call of a script function ends: it returns, or it throws; either
    way the world is left in some state. *)
Inductive Outcome :=
| Done (w : World)
| Threw (w : World).

(** The framework's tree has [2 ^ (height - 1)] leaves and throws on an
    index beyond them. *)
Definition leafCount (t : MerkleTree) : nat := 2 ^ (height t - 1).

Definition in_range (t : MerkleTree) (index : nat) : bool :=
  (index <? leafCount t)%nat.

(** The state of a fresh account. *)
Definition new_account : ZkappState := mkState 0 0 0 0 0.

Section Script.

Variable Poseidon_hash : list Field -> Field.

(** [Local.testAccounts]: the funded accounts of the local blockchain. *)
Variable testAccounts : nat -> PublicKey.

(** [Tree.getWitness(index)] *)
Definition Tree_getWitness (t : MerkleTree) (index : nat)
  : option MyMerkleWitness :=
  if in_range t index then Some (getWitness Poseidon_hash t index) else None.

(** [Tree.setLeaf(index, leaf)] *)
Definition Tree_setLeaf (t : MerkleTree) (index : nat) (leaf : Field)
  : option MerkleTree :=
  if in_range t index then Some (setLeaf t index leaf) else None.

(** The script's [vote(name, index, decision)] (lines 152-168): fetch the
    record and the witness, send the contract call, and only when the
    transaction went through mirror the change into [Voters] and [Tree] and
    compare the roots.  Proving, signing and sending are taken to fail only
    when the contract call does. *)
Definition script_vote (w : World) (name : string) (index : nat)
    (decision : UInt32) : Outcome :=
  match Map_get (store_Voters w) name, Tree_getWitness (store_Tree w) index with
  | Some voter, Some witness =>
      match call_vote Poseidon_hash (zkapp w) voter decision witness with
      | Some zkapp' =>
          let voter := Voter_setDecision voter decision in
          let Voters := Map_set (store_Voters w) "Bob" voter in
          match Tree_setLeaf (store_Tree w) index (Voter_hash Poseidon_hash voter) with
          | Some Tree =>
              let w' := mkWorld Voters Tree zkapp' in
              if root zkapp' =? getRoot Poseidon_hash Tree
              then Done w' else Threw w'
          | None => Threw (mkWorld Voters (store_Tree w) zkapp')
          end
      | None => Threw w
      end
  | _, _ => Threw w
  end.

(** The account update a call of [vote] yields when it is proved against
    ledger state [st]; [commit] then applies it to the state the ledger is
    in when the transaction arrives. *)
Definition prove_vote (st : ZkappState) (voter : Voter) (d : UInt32)
    (path : MyMerkleWitness) : option Tx :=
  match vote Poseidon_hash voter d path
          (mkTx st (fresh_above [oid d; oid (decision voter)]) [] []) with
  | Some (_, t) => Some t
  | None => None
  end.

(** The names of the voters, in the order of their leaves. *)
Definition Names : list string := ["Bob"; "Alice"; "Charlie"; "Olivia"]%string.

(** The initial [Voters] (lines 103-113): every name with the test account
    after its index and an unset decision. *)
Definition initial_Voters : VoterMap :=
  Map_new
    (Array_map
       (fun name index =>
          (name, mkVoter (testAccounts (index + 1)) (mkUInt32 index 0)))
       Names 0).

(** [Tree.setLeaf(index, Voters.get(name)!.hash())] *)
Definition setLeaf_of (m : VoterMap) (t : MerkleTree) (index : nat)
    (name : string) : option MerkleTree :=
  match Map_get m name with
  | Some v => Tree_setLeaf t index (Voter_hash Poseidon_hash v)
  | None => None
  end.

(** The initial [Tree] (lines 117-122). *)
Definition initial_Tree : option MerkleTree :=
  match setLeaf_of initial_Voters (MerkleTree_new 8) 0 "Bob" with
  | Some t0 =>
      match setLeaf_of initial_Voters t0 1 "Alice" with
      | Some t1 =>
          match setLeaf_of initial_Voters t1 2 "Charlie" with
          | Some t2 => setLeaf_of initial_Voters t2 3 "Olivia"
          | None => None
          end
      | None => None
      end
  | None => None
  end.

(** The script up to the deployment (lines 103-141): [initialRoot] is set
    to the root of the tree and the contract is initialised with it. *)
Definition script_setup : option World :=
  match initial_Tree with
  | Some t =>
      match call_init new_account (getRoot Poseidon_hash t) with
      | Some c => Some (mkWorld initial_Voters t c)
      | None => None
      end
  | None => None
  end.

End Script.

(** Test accounts for evaluating the script. *)
Module Run.

Definition accounts (index : nat) : PublicKey :=
  mkPublicKey (100 + Z.of_nat index) (Nat.odd index).

Definition start : World :=
  match script_setup Demo.demo_hash accounts with
  | Some w => w
  | None => mkWorld [] (MerkleTree_new 8) new_account
  end.

(** The record the set-up stores for the name at [index]. *)
Definition voter_at (index : nat) : Voter :=
  mkVoter (accounts (index + 1)) (mkUInt32 index 0).

(** The world a call of the script's [vote] leaves. *)
Definition world_of (o : Outcome) : World :=
  match o with
  | Done w => w
  | Threw w => w
  end.

(** The world after the script's [vote('Bob', 0n, UInt32.from(1))]. *)
Definition after_first : World :=
  world_of (script_vote Demo.demo_hash start "Bob" 0 Demo.agree).

(** The world after a first vote by Alice instead. *)
Definition after_Alice : World :=
  world_of (script_vote Demo.demo_hash start "Alice" 1 Demo.agree).

(** The account update of Bob's vote, proved against the deployed contract. *)
Definition update_for_Bob : Tx :=
  match prove_vote Demo.demo_hash Demo.deployed Demo.Bob Demo.agree
          (getWitness Demo.demo_hash Demo.Tree 0) with
  | Some t => t
  | None => mkTx Demo.deployed 0 [] []
  end.

End Run.

(** * Properties *)

(** ** Equations of the transaction monad *)

Lemma bind_bind {A B C} (m : M A) (f : A -> M B) (g : B -> M C) t :
  bind (bind m f) g t = bind m (fun a => bind (f a) g) t.
Proof. unfold bind. destruct (m t) as [[a t']|]; reflexivity. Qed.

Lemma bind_assert {B} (b : bool) (k : unit -> M B) t :
  bind (assert b) k t = if b then k tt t else None.
Proof. unfold bind, assert. destruct b; reflexivity. Qed.

Lemma bind_from {B} n (k : UInt32 -> M B) t :
  bind (UInt32_from n) k t =
  if (0 <=? n) && (n <=? UInt32_MAX)
  then k (mkUInt32 (heap t) n) (bump t)
  else None.
Proof. unfold UInt32_from. rewrite bind_bind, bind_assert. reflexivity. Qed.

Lemma bind_get {B} s (k : Field -> M B) t :
  bind (State_get s) k t = k (get_slot s (onchain t)) t.
Proof. reflexivity. Qed.

Lemma bind_get_UInt32 {B} s (k : UInt32 -> M B) t :
  bind (State_get_UInt32 s) k t =
  k (mkUInt32 (heap t) (get_slot s (onchain t))) (bump t).
Proof. reflexivity. Qed.

Lemma bind_requireEquals {B} s v (k : unit -> M B) t :
  bind (State_requireEquals s v) k t =
  k tt (mkUpdate (onchain t) (heap t) (preconditions t ++ [(s, v)]) (updates t)
          (provedState_precondition t)).
Proof. reflexivity. Qed.

Lemma bind_set {B} s v (k : unit -> M B) t :
  bind (State_set s v) k t =
  k tt (mkUpdate (onchain t) (heap t) (preconditions t) (updates t ++ [(s, v)])
          (provedState_precondition t)).
Proof. reflexivity. Qed.

Lemma bind_add {B} a n (k : UInt32 -> M B) t :
  bind (UInt32_add a n) k t =
  if (0 <=? n) && (n <=? UInt32_MAX) then
    if (0 <=? value a + n) && (value a + n <=? UInt32_MAX)
    then k (mkUInt32 (S (heap t)) (value a + n)) (bump (bump t))
    else None
  else None.
Proof.
  unfold UInt32_add. rewrite bind_bind, bind_from.
  destruct ((0 <=? n) && (n <=? UInt32_MAX)); [|reflexivity].
  rewrite bind_bind, bind_assert. reflexivity.
Qed.

Lemma bind_if {A B} (c : bool) (m1 m2 : M A) (k : A -> M B) t :
  bind (if c then m1 else m2) k t = if c then bind m1 k t else bind m2 k t.
Proof. destruct c; reflexivity. Qed.

(** An object the caller holds is never [===] to one allocated later. *)
Lemma strict_eq_fresh (d : UInt32) (ids : list nat) (n : nat) v :
  In (oid d) ids -> (fresh_above ids <= n)%nat ->
  strict_eq d (mkUInt32 n v) = false.
Proof.
  intros Hin Hn. unfold strict_eq, fresh_above in *. simpl.
  apply Nat.eqb_neq.
  assert (oid d <= list_max ids)%nat.
  { pose proof (proj1 (list_max_le ids (list_max ids)) (Nat.le_refl _)) as Hall.
    rewrite Forall_forall in Hall. now apply Hall. }
  lia.
Qed.

Ltac const_range :=
  match goal with
  | |- context [(0 <=? ?n) && (?n <=? UInt32_MAX)] =>
      change ((0 <=? n) && (n <=? UInt32_MAX)) with true; cbv iota
  end.

Section Properties.

Variable Poseidon_hash : list Field -> Field.

(** The hash of a record sees the public key and the value of the decision,
    not the identity of the decision object. *)
Lemma Voter_hash_ext (v v' : Voter) :
  publicKey v = publicKey v' -> value (decision v) = value (decision v') ->
  Voter_hash Poseidon_hash v = Voter_hash Poseidon_hash v'.
Proof.
  intros Hk Hd. unfold Voter_hash, Voter_toFields. now rewrite Hk, Hd.
Qed.

(** What a run of [vote] produces, in any context. *)
Lemma vote_run voter d path t :
  vote Poseidon_hash voter d path t =
  if validation Poseidon_hash (onchain t) voter d path then
    let s := tally_slot (strict_eq d (mkUInt32 (3 + heap t) 1)) in
    let c := get_slot s (onchain t) in
    if (0 <=? c + 1) && (c + 1 <=? UInt32_MAX) then
      Some (tt, mkUpdate (onchain t) (8 + heap t)
                  (preconditions t ++ [(Root, root (onchain t)); (s, c)])
                  (updates t ++
                   [(AgreeVotes, c + 1);
                    (Root, calculateRoot Poseidon_hash path (Voter_hash Poseidon_hash (Voter_setDecision (zeroed voter) d)))])
                  (provedState_precondition t))
    else None
  else None.
Proof.
  unfold vote, validation.
  rewrite bind_get, bind_requireEquals.
  rewrite bind_from; const_range.
  rewrite bind_from; const_range.
  unfold UInt32_assertGreaterThan, UInt32_assertLessThan, Field_assertEquals.
  rewrite bind_assert. cbn [value].
  destruct (0 <? value d); [|reflexivity].
  rewrite bind_from; const_range.
  rewrite bind_assert. cbn [value].
  destruct (value d <? 3); [|reflexivity].
  rewrite bind_assert.
  cbn [heap bump preconditions updates onchain get_slot andb].
  rewrite (Voter_hash_ext (Voter_setDecision voter _) (zeroed voter))
    by reflexivity.
  destruct (_ =? root (onchain t)); [|reflexivity].
  rewrite bind_from; const_range.
  rewrite bind_if.
  cbn [heap bump preconditions updates onchain get_slot andb].
  rewrite (Voter_hash_ext (Voter_setDecision (Voter_setDecision voter _) d)
             (Voter_setDecision (zeroed voter) d)) by reflexivity.
  change (3 + heap t)%nat with (S (S (S (heap t)))).
  destruct (strict_eq d _); cbn [tally_slot get_slot];
    rewrite ?bind_bind, bind_get_UInt32;
    rewrite ?bind_bind, bind_requireEquals;
    rewrite ?bind_bind, bind_get_UInt32;
    rewrite ?bind_bind, bind_add; const_range;
    cbn [value heap bump preconditions updates onchain get_slot];
    (match goal with |- context [(0 <=? ?c) && (?c <=? UInt32_MAX)] =>
       destruct ((0 <=? c) && (c <=? UInt32_MAX)) end; [|reflexivity]);
    rewrite bind_set; unfold State_set;
    cbn [value heap bump preconditions updates onchain get_slot];
    rewrite <- !app_assoc; reflexivity.
Qed.

(** The outcome of a call of [vote] on ledger state [st]. *)
Lemma call_vote_eq st voter d path :
  call_vote Poseidon_hash st voter d path =
  if validation Poseidon_hash st voter d path && counter_fits st
  then Some (mkState (calculateRoot Poseidon_hash path (Voter_hash Poseidon_hash (Voter_setDecision (zeroed voter) d)))
                     (disagreeVotes st + 1) (disagreeVotes st)
                     (title st) (description st))
  else None.
Proof.
  unfold call_vote, transaction, mkTx. rewrite vote_run.
  cbn [onchain heap preconditions updates app].
  destruct (validation Poseidon_hash st voter d path); [|reflexivity].
  rewrite strict_eq_fresh with (ids := [oid d; oid (decision voter)]);
    [ | left; reflexivity | lia ].
  cbn [tally_slot get_slot andb]. unfold counter_fits.
  destruct ((0 <=? disagreeVotes st + 1) && (disagreeVotes st + 1 <=? UInt32_MAX));
    [|reflexivity].
  unfold commit, holds.
  cbn [preconditions updates forallb fst snd get_slot fold_left write set_slot
       root agreeVotes disagreeVotes title description].
  now rewrite !Z.eqb_refl.
Qed.

Lemma call_vote_accepted st voter d path st' :
  call_vote Poseidon_hash st voter d path = Some st' ->
  validation Poseidon_hash st voter d path = true /\ counter_fits st = true /\
  st' = mkState (calculateRoot Poseidon_hash path (Voter_hash Poseidon_hash (Voter_setDecision (zeroed voter) d)))
                (disagreeVotes st + 1) (disagreeVotes st)
                (title st) (description st).
Proof.
  rewrite call_vote_eq.
  destruct (validation Poseidon_hash st voter d path); [|discriminate].
  destruct (counter_fits st); [|discriminate].
  cbn [andb]. intros [= <-]. auto.
Qed.

Lemma call_init_eq st r :
  call_init st r = Some (mkState r 0 0 0 0).
Proof. reflexivity. Qed.

(** The outcome of [init] on an account. *)
Lemma deploy_init_eq (a : Account) r :
  deploy_init a r =
  if provedState a then None
  else Some (mkAccount true (mkState r 0 0 0 0)).
Proof.
  destruct a as [[|] st]; reflexivity.
Qed.


(** ** The off-chain tree and its membership proofs *)

Lemma div2_double_cases (i : nat) :
  (if Nat.even i then i = 2 * Nat.div2 i else i = 2 * Nat.div2 i + 1)%nat.
Proof.
  pose proof (Nat.div2_odd i) as E. rewrite <- Nat.negb_even in E.
  destruct (Nat.even i); cbn [negb Nat.b2n] in E; lia.
Qed.

Lemma shiftr_succ_l (i n : nat) :
  Nat.shiftr i (S n) = Nat.shiftr (Nat.div2 i) n.
Proof.
  induction n as [|n IH]; [reflexivity|].
  change (Nat.shiftr i (S (S n))) with (Nat.div2 (Nat.shiftr i (S n))).
  rewrite IH. reflexivity.
Qed.

(** Recomputing from the node at [index] along the siblings collected by
    [witness_from] climbs [n] levels of the tree. *)
Lemma calculateRoot_witness_from lv n : forall level index,
  calculateRoot Poseidon_hash (witness_from Poseidon_hash lv level n index)
    (getNode Poseidon_hash lv level index)
  = getNode Poseidon_hash lv (n + level) (Nat.shiftr index n).
Proof.
  induction n as [|n IH]; intros level index.
  - reflexivity.
  - cbn [witness_from calculateRoot].
    pose proof (div2_double_cases index) as E.
    rewrite shiftr_succ_l.
    replace (S n + level)%nat with (n + S level)%nat by lia.
    rewrite <- IH. f_equal.
    cbn [getNode].
    destruct (Nat.even index).
    + rewrite E at 1. replace (index + 1)%nat with (2 * Nat.div2 index + 1)%nat by lia.
      reflexivity.
    + rewrite E at 2. replace (index - 1)%nat with (2 * Nat.div2 index)%nat by lia.
      reflexivity.
Qed.

Lemma shiftr_small (i n : nat) : (i < 2 ^ n)%nat -> Nat.shiftr i n = 0%nat.
Proof.
  intros Hi. rewrite Nat.shiftr_div_pow2. now apply Nat.div_small.
Qed.

(** A witness handed out by the tree recomputes the tree's root from the
    leaf it was made for. *)
Lemma calculateRoot_getWitness (t : MerkleTree) (i : nat) :
  (i < 2 ^ (height t - 1))%nat ->
  calculateRoot Poseidon_hash (getWitness Poseidon_hash t i) (leaves t i)
  = getRoot Poseidon_hash t.
Proof.
  intros Hi. unfold getWitness, getRoot.
  change (leaves t i) with (getNode Poseidon_hash (leaves t) 0 i).
  rewrite calculateRoot_witness_from, shiftr_small by assumption.
  now rewrite Nat.add_0_r.
Qed.

(** Changing leaf [i] only changes the nodes above it. *)
Lemma getNode_update_leaf lv i leaf : forall level j,
  j <> Nat.shiftr i level ->
  getNode Poseidon_hash (update_leaf lv i leaf) level j
  = getNode Poseidon_hash lv level j.
Proof.
  induction level as [|l IH]; intros j Hj.
  - cbn in *. unfold update_leaf.
    destruct (Nat.eqb_spec j i); [congruence | reflexivity].
  - cbn [getNode].
    change (Nat.shiftr i (S l)) with (Nat.div2 (Nat.shiftr i l)) in Hj.
    rewrite !IH; [reflexivity | |]; intro Heq; apply Hj; rewrite <- Heq.
    + replace (2 * j + 1)%nat with (S (2 * j)) by lia.
      now rewrite Nat.div2_succ_double.
    + now rewrite Nat.div2_double.
Qed.

(** The siblings on the path of leaf [i] do not depend on leaf [i]. *)
Lemma witness_from_update_leaf lv i leaf n : forall level,
  witness_from Poseidon_hash (update_leaf lv i leaf) level n (Nat.shiftr i level)
  = witness_from Poseidon_hash lv level n (Nat.shiftr i level).
Proof.
  induction n as [|n IH]; intros level; [reflexivity|].
  cbn [witness_from].
  change (Nat.div2 (Nat.shiftr i level)) with (Nat.shiftr i (S level)).
  rewrite IH. f_equal. f_equal.
  apply getNode_update_leaf.
  pose proof (div2_double_cases (Nat.shiftr i level)) as E.
  destruct (Nat.even (Nat.shiftr i level)); lia.
Qed.

Lemma getWitness_setLeaf (t : MerkleTree) (i : nat) (leaf : Field) :
  getWitness Poseidon_hash (setLeaf t i leaf) i = getWitness Poseidon_hash t i.
Proof.
  unfold getWitness, setLeaf. cbn [leaves height].
  exact (witness_from_update_leaf (leaves t) i leaf (height t - 1) 0).
Qed.

Lemma leaves_setLeaf (t : MerkleTree) (i : nat) (leaf : Field) :
  leaves (setLeaf t i leaf) i = leaf.
Proof. cbn. unfold update_leaf. now rewrite Nat.eqb_refl. Qed.

(** The witness of leaf [i] recomputes, from a new leaf hash, the root of
    the tree in which leaf [i] has been replaced by it. *)
Lemma calculateRoot_setLeaf (t : MerkleTree) (i : nat) (leaf : Field) :
  (i < 2 ^ (height t - 1))%nat ->
  calculateRoot Poseidon_hash (getWitness Poseidon_hash t i) leaf
  = getRoot Poseidon_hash (setLeaf t i leaf).
Proof.
  intros Hi.
  rewrite <- (getWitness_setLeaf t i leaf).
  rewrite <- (leaves_setLeaf t i leaf) at 2.
  now apply calculateRoot_getWitness.
Qed.

(** ** Consequences for accepted and rejected calls *)

(** What an accepted vote does to the two counters. *)
Lemma call_vote_tallies st voter d path st' :
  call_vote Poseidon_hash st voter d path = Some st' ->
  agreeVotes st' = disagreeVotes st + 1 /\ disagreeVotes st' = disagreeVotes st.
Proof.
  intros Hc. apply call_vote_accepted in Hc as (_ & _ & ->). auto.
Qed.

(** Every state the contract reaches has [disagreeVotes] at zero and
    [agreeVotes] at zero or one. *)
Lemma reachable_counters r st :
  reachable Poseidon_hash r st ->
  disagreeVotes st = 0 /\ (agreeVotes st = 0 \/ agreeVotes st = 1).
Proof.
  induction 1 as [st0 st Hi | st voter d path st' _ [IHd _] Hv].
  - rewrite call_init_eq in Hi. injection Hi as <-. auto.
  - apply call_vote_tallies in Hv as [Ha Hd]. rewrite Hd, Ha, IHd. auto.
Qed.

(** Along accepted votes from a deployed contract no counter decreases. *)
Lemma reachable_counters_monotone r st voter d path st' :
  reachable Poseidon_hash r st ->
  call_vote Poseidon_hash st voter d path = Some st' ->
  agreeVotes st <= agreeVotes st' /\ disagreeVotes st <= disagreeVotes st'.
Proof.
  intros Hr Hv. apply reachable_counters in Hr as [Hd Ha].
  apply call_vote_tallies in Hv as [Ha' Hd']. lia.
Qed.

Lemma decision_bounds (d : UInt32) :
  (0 <? value d) && (value d <? 3) = true <-> value d = 1 \/ value d = 2.
Proof.
  rewrite andb_true_iff, !Z.ltb_lt. lia.
Qed.

(** The first vote for an undecided member of the committed tree is
    accepted, and commits the root of the tree in which the member's leaf
    is the hash of the decided record. *)
Lemma first_vote_accepted (t : MerkleTree) (i : nat) st voter d :
  (i < 2 ^ (height t - 1))%nat ->
  leaves t i = Voter_hash Poseidon_hash (zeroed voter) ->
  root st = getRoot Poseidon_hash t ->
  value d = 1 \/ value d = 2 ->
  counter_fits st = true ->
  exists st',
    call_vote Poseidon_hash st voter d (getWitness Poseidon_hash t i) = Some st' /\
    root st' = getRoot Poseidon_hash
                 (setLeaf t i (Voter_hash Poseidon_hash (Voter_setDecision voter d))).
Proof.
  intros Hi Hleaf Hroot Hd Hfit.
  eexists. split.
  - rewrite call_vote_eq. unfold validation.
    rewrite (proj2 (decision_bounds d) Hd), <- Hleaf.
    rewrite calculateRoot_getWitness by assumption.
    rewrite Hroot, Z.eqb_refl, Hfit.
    reflexivity.
  - cbn [root]. rewrite calculateRoot_setLeaf by assumption. reflexivity.
Qed.

(** After the member's leaf has been replaced, the proof of the updated
    tree still recomputes the old root from the zeroed record. *)
Lemma revote_recomputes_old_root (t : MerkleTree) (i : nat) voter d :
  (i < 2 ^ (height t - 1))%nat ->
  leaves t i = Voter_hash Poseidon_hash (zeroed voter) ->
  calculateRoot Poseidon_hash
    (getWitness Poseidon_hash
       (setLeaf t i (Voter_hash Poseidon_hash (Voter_setDecision voter d))) i)
    (Voter_hash Poseidon_hash (zeroed (Voter_setDecision voter d)))
  = getRoot Poseidon_hash t.
Proof.
  intros Hi Hleaf.
  rewrite getWitness_setLeaf.
  rewrite (Voter_hash_ext (zeroed (Voter_setDecision voter d)) (zeroed voter))
    by reflexivity.
  rewrite <- Hleaf. now apply calculateRoot_getWitness.
Qed.

(** A second vote can only be accepted when replacing the leaf left the
    root where it was, that is, on a collision of the hash. *)
Lemma revote_accepted_only_on_collision (t : MerkleTree) (i : nat) st' voter d st'' :
  (i < 2 ^ (height t - 1))%nat ->
  leaves t i = Voter_hash Poseidon_hash (zeroed voter) ->
  call_vote Poseidon_hash st' (Voter_setDecision voter d) d
    (getWitness Poseidon_hash
       (setLeaf t i (Voter_hash Poseidon_hash (Voter_setDecision voter d))) i)
  = Some st'' ->
  root st' = getRoot Poseidon_hash t.
Proof.
  intros Hi Hleaf Hc.
  apply call_vote_accepted in Hc as (Hv & _ & _).
  unfold validation in Hv. apply andb_true_iff in Hv as [_ Hv].
  apply Z.eqb_eq in Hv.
  rewrite revote_recomputes_old_root in Hv by assumption. now symmetry.
Qed.

(** ** The claims *)

(** C2.  A call of [vote] whose decision argument is neither 1 nor 2 fails,
    and leaves [agreeVotes], [disagreeVotes] and [root] as they were. *)
Theorem vote_rejects_invalid_decision st voter d path :
  value d <> 1 -> value d <> 2 ->
  call_vote Poseidon_hash st voter d path = None /\
  let st' := state_after st (call_vote Poseidon_hash st voter d path) in
  agreeVotes st' = agreeVotes st /\
  disagreeVotes st' = disagreeVotes st /\
  root st' = root st.
Proof.
  intros H1 H2.
  assert (Hnone : call_vote Poseidon_hash st voter d path = None).
  { rewrite call_vote_eq. unfold validation.
    destruct ((0 <? value d) && (value d <? 3)) eqn:E; [|reflexivity].
    apply decision_bounds in E. tauto. }
  rewrite Hnone. cbn. auto.
Qed.

(** C3.  When the root recomputed through the supplied proof from the hash
    of the supplied record with its decision zeroed differs from the
    committed root, the call fails and the state is unchanged.  In
    particular a proof that recomputes the root committed before an
    accepted vote moved it is rejected afterwards. *)
Theorem vote_rejects_failed_membership st voter d path :
  (calculateRoot Poseidon_hash path (Voter_hash Poseidon_hash (zeroed voter))
     <> root st ->
   call_vote Poseidon_hash st voter d path = None /\
   state_after st (call_vote Poseidon_hash st voter d path) = st)
  /\
  (forall st0 voter0 d0 path0,
     call_vote Poseidon_hash st0 voter0 d0 path0 = Some st ->
     root st <> root st0 ->
     calculateRoot Poseidon_hash path (Voter_hash Poseidon_hash (zeroed voter))
       = root st0 ->
     call_vote Poseidon_hash st voter d path = None /\
     state_after st (call_vote Poseidon_hash st voter d path) = st).
Proof.
  assert (Hgen :
    calculateRoot Poseidon_hash path (Voter_hash Poseidon_hash (zeroed voter))
      <> root st ->
    call_vote Poseidon_hash st voter d path = None /\
    state_after st (call_vote Poseidon_hash st voter d path) = st).
  { intros Hne.
    assert (Hnone : call_vote Poseidon_hash st voter d path = None).
    { rewrite call_vote_eq. unfold validation.
      apply Z.eqb_neq in Hne. rewrite Hne, andb_false_r. reflexivity. }
    rewrite Hnone. auto. }
  split; [exact Hgen|].
  intros st0 voter0 d0 path0 _ Hmoved Hstale.
  apply Hgen. congruence.
Qed.

(** C6.  A call that passes validation (a decision of 1 or 2, and a proof
    that recomputes the committed root from the hash of the public key
    followed by a zero decision) writes, as the new committed root, the
    root recomputed through the same proof from the hash of the public key
    followed by the decision argument.  The only call that passes
    validation and writes nothing is one aborted by the 32-bit range check
    of the counter addition, which does not happen in a state reached from
    [init]: there the call is accepted. *)
Theorem vote_new_root st voter d path :
  value d = 1 \/ value d = 2 ->
  calculateRoot Poseidon_hash path
    (Poseidon_hash (PublicKey_toFields (publicKey voter) ++ [0])) = root st ->
  (match call_vote Poseidon_hash st voter d path with
   | Some st' =>
       root st' = calculateRoot Poseidon_hash path
                    (Poseidon_hash
                       (PublicKey_toFields (publicKey voter) ++ [value d]))
   | None => disagreeVotes st + 1 < 0 \/ UInt32_MAX < disagreeVotes st + 1
   end) /\
  (forall initialRoot,
     reachable Poseidon_hash initialRoot st ->
     exists st',
       call_vote Poseidon_hash st voter d path = Some st' /\
       root st' = calculateRoot Poseidon_hash path
                    (Poseidon_hash
                       (PublicKey_toFields (publicKey voter) ++ [value d]))).
Proof.
  intros Hd Hm.
  assert (Hv : validation Poseidon_hash st voter d path = true).
  { unfold validation. rewrite (proj2 (decision_bounds d) Hd).
    apply Z.eqb_eq in Hm. exact Hm. }
  rewrite call_vote_eq, Hv. cbn [andb]. split.
  - unfold counter_fits.
    destruct (0 <=? disagreeVotes st + 1) eqn:E1;
      [destruct (disagreeVotes st + 1 <=? UInt32_MAX) eqn:E2|]; cbn [andb].
    + reflexivity.
    + right. apply Z.leb_gt. exact E2.
    + left. apply Z.leb_gt. exact E1.
  - intros initialRoot Hr. apply reachable_counters in Hr as [Hdis _].
    unfold counter_fits. rewrite Hdis. eexists. split; reflexivity.
Qed.


(** C8.  [init] sets the root to the supplied initial commitment and both
    counters to zero: whenever it is applied to an account, the resulting
    state has that root and zero counters.  It is applied to every account
    that is not in proved state yet, which it leaves in proved state; on a
    contract that has been initialised it is refused. *)
Theorem init_sets_root_and_counters (a : Account) initialRoot :
  (forall a',
     deploy_init a initialRoot = Some a' ->
     root (appState a') = initialRoot /\
     agreeVotes (appState a') = 0 /\
     disagreeVotes (appState a') = 0 /\
     provedState a' = true) /\
  (provedState a = false -> exists a', deploy_init a initialRoot = Some a') /\
  (provedState a = true -> deploy_init a initialRoot = None).
Proof.
  rewrite deploy_init_eq. destruct (provedState a).
  - split; [discriminate|]. split; [discriminate | reflexivity].
  - split; [|split; [eexists; reflexivity | discriminate]].
    intros a' [= <-]. cbn. auto.
Qed.

(** C9.  No run of [vote] writes [disagreeVotes], [title] or [description]:
    whichever branch of the tally update runs, the account update writes
    only [agreeVotes] and [root]; so every call, accepted or not, leaves
    the three fields unchanged. *)
Theorem vote_frame st voter d path :
  (forall h,
     writes_within [AgreeVotes; Root]
       (vote Poseidon_hash voter d path (mkTx st h [] [])) = true) /\
  let st' := state_after st (call_vote Poseidon_hash st voter d path) in
  disagreeVotes st' = disagreeVotes st /\
  title st' = title st /\
  description st' = description st.
Proof.
  split.
  - intros h. unfold mkTx. rewrite vote_run.
    cbn [onchain heap preconditions updates app].
    destruct (validation Poseidon_hash st voter d path); [|reflexivity].
    cbv zeta.
    match goal with |- context [if ?b then Some _ else None] => destruct b end;
      reflexivity.
  - rewrite call_vote_eq.
    destruct (validation Poseidon_hash st voter d path && counter_fits st);
      cbn; auto.
Qed.

(** C10.  Two calls on the same state with the same decision argument and
    the same proof, whose records carry the same public key, have the same
    outcome: both fail, or both succeed with the same resulting state. *)
Theorem vote_ignores_record_decision st d path voter1 voter2 :
  publicKey voter1 = publicKey voter2 ->
  call_vote Poseidon_hash st voter1 d path
  = call_vote Poseidon_hash st voter2 d path.
Proof.
  intros Hk. rewrite !call_vote_eq.
  unfold validation.
  rewrite (Voter_hash_ext (zeroed voter1) (zeroed voter2))
    by (cbn; auto).
  rewrite (Voter_hash_ext (Voter_setDecision (zeroed voter1) d)
             (Voter_setDecision (zeroed voter2) d)) by (cbn; auto).
  reflexivity.
Qed.

(** C5, as the code has it.  For an identity whose undecided record is leaf
    [i] of the committed tree, a first vote with the tree's proof is
    accepted and commits the root of the tree with the leaf replaced by the
    hash of the decided record; a second vote for the same identity, with
    the proof taken from that updated tree, is rejected, provided replacing
    the leaf changed the root. *)
Theorem revote_rejected (t : MerkleTree) (i : nat) st voter d :
  (i < 2 ^ (height t - 1))%nat ->
  leaves t i = Voter_hash Poseidon_hash (zeroed voter) ->
  root st = getRoot Poseidon_hash t ->
  value d = 1 \/ value d = 2 ->
  counter_fits st = true ->
  let voted := Voter_setDecision voter d in
  let t' := setLeaf t i (Voter_hash Poseidon_hash voted) in
  getRoot Poseidon_hash t' <> getRoot Poseidon_hash t ->
  exists st',
    call_vote Poseidon_hash st voter d (getWitness Poseidon_hash t i) = Some st' /\
    root st' = getRoot Poseidon_hash t' /\
    call_vote Poseidon_hash st' voted d (getWitness Poseidon_hash t' i) = None /\
    state_after st'
      (call_vote Poseidon_hash st' voted d (getWitness Poseidon_hash t' i)) = st'.
Proof.
  intros Hi Hleaf Hroot Hd Hfit voted t' Hmoved.
  destruct (first_vote_accepted t i st voter d Hi Hleaf Hroot Hd Hfit)
    as (st' & Hfirst & Hroot').
  exists st'. split; [exact Hfirst|]. split; [exact Hroot'|].
  assert (Hnone :
    call_vote Poseidon_hash st' voted d (getWitness Poseidon_hash t' i) = None).
  { rewrite call_vote_eq. unfold validation.
    unfold t', voted. rewrite revote_recomputes_old_root by assumption.
    rewrite Hroot'. apply not_eq_sym, Z.eqb_neq in Hmoved.
    fold voted. fold t'. rewrite Hmoved, andb_false_r. reflexivity. }
  rewrite Hnone. auto.
Qed.

(** ** Further properties of [vote] *)


Lemma validation_iff st voter d path :
  validation Poseidon_hash st voter d path = true <->
  (value d = 1 \/ value d = 2) /\
  calculateRoot Poseidon_hash path (Voter_hash Poseidon_hash (zeroed voter))
  = root st.
Proof.
  unfold validation. rewrite andb_true_iff, decision_bounds, Z.eqb_eq. tauto.
Qed.


(** X2.  The state an accepted vote leaves: the root recomputed from the
    hash of the public key followed by the decision argument,
    [agreeVotes] set to the old [disagreeVotes] plus one (whatever the
    decision and the old [agreeVotes]), and the other fields as before. *)
Theorem accepted_vote_state st voter d path st' :
  call_vote Poseidon_hash st voter d path = Some st' ->
  st' = mkState
          (calculateRoot Poseidon_hash path
             (Poseidon_hash (PublicKey_toFields (publicKey voter) ++ [value d])))
          (disagreeVotes st + 1) (disagreeVotes st) (title st) (description st).
Proof.
  intros Hc. apply call_vote_accepted in Hc as (_ & _ & ->).
  reflexivity.
Qed.

Lemma reachable_metadata r st :
  reachable Poseidon_hash r st -> title st = 0 /\ description st = 0.
Proof.
  induction 1 as [st0 st Hi | st voter d path st' _ [IHt IHd] Hv].
  - rewrite call_init_eq in Hi. injection Hi as <-. auto.
  - apply call_vote_accepted in Hv as (_ & _ & ->). auto.
Qed.

(** X3.  In every state the contract reaches from [init], [disagreeVotes]
    is 0, [agreeVotes] is 0 or 1, and [title] and [description] are 0. *)
Theorem reachable_invariant r st :
  reachable Poseidon_hash r st ->
  disagreeVotes st = 0 /\ (agreeVotes st = 0 \/ agreeVotes st = 1) /\
  title st = 0 /\ description st = 0.
Proof.
  intros Hr.
  destruct (reachable_counters r st Hr) as [Hd Ha].
  destruct (reachable_metadata r st Hr) as [Ht He]. auto.
Qed.

(** X4.  From a state reached from [init], a call that passes the three
    assertions is accepted (the counter addition cannot overflow there);
    it leaves [agreeVotes] at 1 and [disagreeVotes] at 0. *)
Theorem reachable_vote_accepted r st voter d path :
  reachable Poseidon_hash r st ->
  validation Poseidon_hash st voter d path = true ->
  exists st',
    call_vote Poseidon_hash st voter d path = Some st' /\
    agreeVotes st' = 1 /\ disagreeVotes st' = 0.
Proof.
  intros Hr Hv. apply reachable_counters in Hr as [Hd _].
  rewrite call_vote_eq, Hv. unfold counter_fits. rewrite Hd.
  eexists. split; [reflexivity|]. cbn. auto.
Qed.

(** X5.  When [disagreeVotes] holds the largest 32-bit number, every call
    of [vote] is rejected: the addition of line 86 fails its range check. *)
Theorem vote_rejected_when_counter_saturated st voter d path :
  disagreeVotes st = UInt32_MAX ->
  call_vote Poseidon_hash st voter d path = None.
Proof.
  intros Hs. rewrite call_vote_eq. unfold counter_fits. rewrite Hs.
  rewrite andb_false_r. reflexivity.
Qed.

(** X6.  The account update of a vote proved against state [st] is applied
    by a ledger in state [st2] exactly when [st2] has the root and the
    [disagreeVotes] of [st]; [agreeVotes] is not guarded.  When applied, it
    writes the new root and [agreeVotes], computed from [st], over [st2]. *)
Theorem vote_update_guarded st voter d path t st2 :
  prove_vote Poseidon_hash st voter d path = Some t ->
  commit st2 t =
  if (root st2 =? root st) && (disagreeVotes st2 =? disagreeVotes st)
  then Some (mkState
               (calculateRoot Poseidon_hash path
                  (Voter_hash Poseidon_hash (Voter_setDecision (zeroed voter) d)))
               (disagreeVotes st + 1) (disagreeVotes st2)
               (title st2) (description st2))
  else None.
Proof.
  unfold prove_vote, mkTx. rewrite vote_run.
  cbn [onchain heap preconditions updates app].
  destruct (validation Poseidon_hash st voter d path); [|discriminate].
  rewrite strict_eq_fresh with (ids := [oid d; oid (decision voter)]);
    [ | left; reflexivity | lia ].
  cbn [tally_slot get_slot].
  destruct ((0 <=? disagreeVotes st + 1) && (disagreeVotes st + 1 <=? UInt32_MAX));
    [|discriminate].
  intros [= <-]. unfold commit, holds.
  cbn [preconditions updates forallb fst snd get_slot fold_left write set_slot
       root agreeVotes disagreeVotes title description].
  rewrite andb_true_r. reflexivity.
Qed.

(** X7.  An accepted vote that moved the root cannot be replayed: the same
    call on the resulting state is rejected. *)
Theorem vote_replay_rejected st voter d path st' :
  call_vote Poseidon_hash st voter d path = Some st' ->
  root st' <> root st ->
  call_vote Poseidon_hash st' voter d path = None.
Proof.
  intros Hc Hmoved.
  apply call_vote_accepted in Hc as (Hv & _ & _).
  apply validation_iff in Hv as [_ Hm].
  rewrite call_vote_eq.
  destruct (validation Poseidon_hash st' voter d path) eqn:Hv'; [|reflexivity].
  apply validation_iff in Hv' as [_ Hm']. congruence.
Qed.

(** ** The script's [vote] and its off-chain store *)

Lemma Map_get_set_same (m : VoterMap) k v :
  Map_get (Map_set m k v) k = Some v.
Proof.
  induction m as [|[k0 v0] m IH]; cbn.
  - now rewrite String.eqb_refl.
  - destruct (String.eqb k0 k) eqn:E; cbn; rewrite E; auto.
Qed.

Lemma Map_get_set_other (m : VoterMap) k v k' :
  k' <> k -> Map_get (Map_set m k v) k' = Map_get m k'.
Proof.
  intros Hne. induction m as [|[k0 v0] m IH]; cbn.
  - destruct (String.eqb_spec k k'); [congruence | reflexivity].
  - destruct (String.eqb_spec k0 k) as [->|Hk]; cbn.
    + destruct (String.eqb_spec k k'); [congruence | reflexivity].
    + now rewrite IH.
Qed.

Lemma in_range_lt (t : MerkleTree) (index : nat) :
  in_range t index = true <-> (index < 2 ^ (height t - 1))%nat.
Proof. unfold in_range, leafCount. apply Nat.ltb_lt. Qed.

(** The root an accepted vote commits is the root of the tree once the
    decided record has been written to the leaf the witness was taken for. *)
Lemma accepted_root_mirrored (t : MerkleTree) (index : nat) st voter d st' :
  in_range t index = true ->
  call_vote Poseidon_hash st voter d (getWitness Poseidon_hash t index) = Some st' ->
  root st' = getRoot Poseidon_hash
               (setLeaf t index
                  (Voter_hash Poseidon_hash (Voter_setDecision voter d))).
Proof.
  intros Hi Hc. apply in_range_lt in Hi.
  apply call_vote_accepted in Hc as (_ & _ & ->). cbn [root].
  rewrite calculateRoot_setLeaf by assumption.
  now rewrite (Voter_hash_ext (Voter_setDecision (zeroed voter) d)
                 (Voter_setDecision voter d)).
Qed.

(** What [script_vote] does once the contract call has been accepted. *)
Lemma script_vote_accepted (w : World) name index d voter st' :
  Map_get (store_Voters w) name = Some voter ->
  in_range (store_Tree w) index = true ->
  call_vote Poseidon_hash (zkapp w) voter d
    (getWitness Poseidon_hash (store_Tree w) index) = Some st' ->
  script_vote Poseidon_hash w name index d =
  Done (mkWorld
          (Map_set (store_Voters w) "Bob" (Voter_setDecision voter d))
          (setLeaf (store_Tree w) index
             (Voter_hash Poseidon_hash (Voter_setDecision voter d)))
          st').
Proof.
  intros Hg Hi Hc. unfold script_vote, Tree_getWitness, Tree_setLeaf.
  rewrite Hg, Hi, Hc.
  rewrite (accepted_root_mirrored _ _ _ _ _ _ Hi Hc), Z.eqb_refl.
  reflexivity.
Qed.

(** X8.  Whenever the contract accepts the call the script sends, the
    script's [vote] returns: the comparison of the roots on line 167 holds,
    the contract's new root being the root of the mirrored tree. *)
Theorem script_vote_completes (w : World) name index d voter st' :
  Map_get (store_Voters w) name = Some voter ->
  in_range (store_Tree w) index = true ->
  call_vote Poseidon_hash (zkapp w) voter d
    (getWitness Poseidon_hash (store_Tree w) index) = Some st' ->
  exists w',
    script_vote Poseidon_hash w name index d = Done w' /\
    zkapp w' = st' /\
    store_Tree w' = setLeaf (store_Tree w) index
                      (Voter_hash Poseidon_hash (Voter_setDecision voter d)) /\
    root (zkapp w') = getRoot Poseidon_hash (store_Tree w').
Proof.
  intros Hg Hi Hc. eexists. split.
  - apply (script_vote_accepted w name index d voter st'); assumption.
  - cbn. split; [reflexivity|]. split; [reflexivity|].
    apply (accepted_root_mirrored _ _ (zkapp w) voter d st'); assumption.
Qed.

(** The outcomes of [script_vote], by cases. *)
Lemma script_vote_cases (w : World) name index d :
  in_range (store_Tree w) index = true ->
  script_vote Poseidon_hash w name index d = Threw w \/
  exists voter st',
    Map_get (store_Voters w) name = Some voter /\
    call_vote Poseidon_hash (zkapp w) voter d
      (getWitness Poseidon_hash (store_Tree w) index) = Some st' /\
    script_vote Poseidon_hash w name index d =
    Done (mkWorld
            (Map_set (store_Voters w) "Bob" (Voter_setDecision voter d))
            (setLeaf (store_Tree w) index
               (Voter_hash Poseidon_hash (Voter_setDecision voter d)))
            st').
Proof.
  intros Hi.
  destruct (Map_get (store_Voters w) name) as [voter|] eqn:Hg.
  - destruct (call_vote Poseidon_hash (zkapp w) voter d
                (getWitness Poseidon_hash (store_Tree w) index)) as [st'|] eqn:Hc.
    + right. exists voter, st'. split; [reflexivity|]. split; [exact Hc|].
      apply script_vote_accepted; assumption.
    + left. unfold script_vote, Tree_getWitness. now rewrite Hg, Hi, Hc.
  - left. unfold script_vote. now rewrite Hg.
Qed.

(** X9.  When the script's [vote] returns, the updated record has been
    stored under the key ["Bob"], whatever [name] was; every other key of
    [Voters], [name] included when it is not ["Bob"], keeps its record. *)
Theorem script_vote_stores_under_Bob (w w' : World) name index d :
  in_range (store_Tree w) index = true ->
  script_vote Poseidon_hash w name index d = Done w' ->
  exists voter,
    Map_get (store_Voters w) name = Some voter /\
    Map_get (store_Voters w') "Bob" = Some (Voter_setDecision voter d) /\
    forall key, key <> "Bob"%string ->
      Map_get (store_Voters w') key = Map_get (store_Voters w) key.
Proof.
  intros Hi Hdone.
  destruct (script_vote_cases w name index d Hi)
    as [Hthrew | (voter & st' & Hg & _ & Heq)]; [congruence|].
  rewrite Heq in Hdone. injection Hdone as <-.
  exists voter. cbn [store_Voters]. split; [exact Hg|]. split.
  - apply Map_get_set_same.
  - intros key Hk. now apply Map_get_set_other.
Qed.

(** X10.  When the script's [vote] throws, nothing has changed: neither
    [Voters], nor [Tree], nor the contract's state. *)
Theorem script_vote_throw_unchanged (w w' : World) name index d :
  in_range (store_Tree w) index = true ->
  script_vote Poseidon_hash w name index d = Threw w' ->
  w' = w.
Proof.
  intros Hi Hthrew.
  destruct (script_vote_cases w name index d Hi)
    as [Heq | (voter & st' & _ & _ & Heq)]; congruence.
Qed.

(** In a world whose contract root is the tree's root, a voter whose
    undecided record is the leaf at [index] casts a vote through the
    script. *)
Lemma script_vote_of_member (w : World) name index d voter :
  Map_get (store_Voters w) name = Some voter ->
  in_range (store_Tree w) index = true ->
  leaves (store_Tree w) index = Voter_hash Poseidon_hash (zeroed voter) ->
  root (zkapp w) = getRoot Poseidon_hash (store_Tree w) ->
  disagreeVotes (zkapp w) = 0 ->
  value d = 1 \/ value d = 2 ->
  exists w',
    script_vote Poseidon_hash w name index d = Done w' /\
    agreeVotes (zkapp w') = 1 /\
    disagreeVotes (zkapp w') = 0 /\
    root (zkapp w') = getRoot Poseidon_hash (store_Tree w').
Proof.
  intros Hg Hi Hleaf Hroot Hdis Hd.
  destruct (first_vote_accepted (store_Tree w) index (zkapp w) voter d)
    as (st' & Hc & _); auto.
  { now apply in_range_lt. }
  { unfold counter_fits. now rewrite Hdis. }
  eexists. split.
  - apply (script_vote_accepted w name index d voter st'); assumption.
  - cbn [zkapp store_Tree].
    destruct (call_vote_tallies _ _ _ _ _ Hc) as [Ha Hd'].
    rewrite Ha, Hd', Hdis. split; [reflexivity|]. split; [reflexivity|].
    apply (accepted_root_mirrored _ _ (zkapp w) voter d st'); assumption.
Qed.

Lemma leaves_setLeaf_other (t : MerkleTree) (i j : nat) (leaf : Field) :
  j <> i -> leaves (setLeaf t i leaf) j = leaves t j.
Proof.
  intros Hne. cbn. unfold update_leaf.
  destruct (Nat.eqb_spec j i); [contradiction | reflexivity].
Qed.

(** X12.  Through the script too a second vote for the same name is
    refused: after a voter's first vote has returned, the same call throws
    and changes nothing, provided the first vote moved the root of the
    tree. *)
Theorem script_second_vote_throws (w : World) name index d voter :
  Map_get (store_Voters w) name = Some voter ->
  in_range (store_Tree w) index = true ->
  leaves (store_Tree w) index = Voter_hash Poseidon_hash (zeroed voter) ->
  root (zkapp w) = getRoot Poseidon_hash (store_Tree w) ->
  disagreeVotes (zkapp w) = 0 ->
  value d = 1 \/ value d = 2 ->
  getRoot Poseidon_hash
    (setLeaf (store_Tree w) index
       (Voter_hash Poseidon_hash (Voter_setDecision voter d)))
  <> getRoot Poseidon_hash (store_Tree w) ->
  exists w',
    script_vote Poseidon_hash w name index d = Done w' /\
    script_vote Poseidon_hash w' name index d = Threw w'.
Proof.
  intros Hg Hi Hleaf Hroot Hdis Hd Hmoved.
  pose proof (proj1 (in_range_lt _ _) Hi) as Hlt.
  destruct (first_vote_accepted (store_Tree w) index (zkapp w) voter d)
    as (st' & Hc & Hroot'); auto.
  { unfold counter_fits. now rewrite Hdis. }
  eexists. split.
  - apply (script_vote_accepted w name index d voter st'); assumption.
  - set (t' := setLeaf (store_Tree w) index
                 (Voter_hash Poseidon_hash (Voter_setDecision voter d))) in *.
    assert (Hg' : exists voter',
      Map_get (Map_set (store_Voters w) "Bob" (Voter_setDecision voter d)) name
        = Some voter' /\ publicKey voter' = publicKey voter).
    { destruct (String.eqb_spec name "Bob") as [->|Hne].
      - rewrite Map_get_set_same. eexists. split; reflexivity.
      - rewrite Map_get_set_other by assumption. eauto. }
    destruct Hg' as (voter' & Hg' & Hk).
    unfold script_vote, Tree_getWitness. cbn [store_Voters store_Tree zkapp].
    rewrite Hg'. change (in_range t' index) with (in_range (store_Tree w) index).
    rewrite Hi.
    assert (Hnone :
      call_vote Poseidon_hash st' voter' d (getWitness Poseidon_hash t' index)
      = None).
    { rewrite call_vote_eq. unfold validation.
      rewrite (Voter_hash_ext (zeroed voter')
                 (zeroed (Voter_setDecision voter d))) by (cbn; auto).
      unfold t'. rewrite revote_recomputes_old_root by assumption.
      rewrite Hroot'. apply not_eq_sym, Z.eqb_neq in Hmoved.
      fold t'. rewrite Hmoved, andb_false_r. reflexivity. }
    rewrite Hnone. reflexivity.
Qed.

(** X13.  A vote through the script leaves the other voters in place:
    every record stored under a key other than ["Bob"] and every leaf at
    another index are untouched, the tree keeps its height, and the
    contract's root is the root of the tree. *)
Theorem script_vote_keeps_other_members (w w' : World) name index d :
  in_range (store_Tree w) index = true ->
  script_vote Poseidon_hash w name index d = Done w' ->
  (forall key, key <> "Bob"%string ->
     Map_get (store_Voters w') key = Map_get (store_Voters w) key) /\
  (forall index2, index2 <> index ->
     leaves (store_Tree w') index2 = leaves (store_Tree w) index2) /\
  height (store_Tree w') = height (store_Tree w) /\
  root (zkapp w') = getRoot Poseidon_hash (store_Tree w').
Proof.
  intros Hi Hdone.
  destruct (script_vote_cases w name index d Hi)
    as [Hthrew | (voter & st' & Hg & Hc & Heq)]; [congruence|].
  rewrite Heq in Hdone. injection Hdone as <-.
  cbn [store_Voters store_Tree zkapp].
  split; [|split; [|split]].
  - intros key Hk. now apply Map_get_set_other.
  - intros index2 Hne. now apply leaves_setLeaf_other.
  - reflexivity.
  - apply (accepted_root_mirrored _ _ (zkapp w) voter d st'); assumption.
Qed.

(** X14.  Two voters vote one after the other through the script: when
    both are undecided members at different leaves and the second is not
    stored under ["Bob"], both calls return; afterwards [agreeVotes] is 1,
    [disagreeVotes] is 0 and the contract's root is the root of the tree. *)
Theorem script_two_votes (w : World) name1 index1 d1 voter1
    name2 index2 d2 voter2 :
  root (zkapp w) = getRoot Poseidon_hash (store_Tree w) ->
  disagreeVotes (zkapp w) = 0 ->
  Map_get (store_Voters w) name1 = Some voter1 ->
  in_range (store_Tree w) index1 = true ->
  leaves (store_Tree w) index1 = Voter_hash Poseidon_hash (zeroed voter1) ->
  value d1 = 1 \/ value d1 = 2 ->
  Map_get (store_Voters w) name2 = Some voter2 ->
  in_range (store_Tree w) index2 = true ->
  leaves (store_Tree w) index2 = Voter_hash Poseidon_hash (zeroed voter2) ->
  value d2 = 1 \/ value d2 = 2 ->
  name2 <> "Bob"%string ->
  index2 <> index1 ->
  exists w1 w2,
    script_vote Poseidon_hash w name1 index1 d1 = Done w1 /\
    script_vote Poseidon_hash w1 name2 index2 d2 = Done w2 /\
    agreeVotes (zkapp w2) = 1 /\
    disagreeVotes (zkapp w2) = 0 /\
    root (zkapp w2) = getRoot Poseidon_hash (store_Tree w2).
Proof.
  intros Hroot Hdis Hg1 Hi1 Hleaf1 Hd1 Hg2 Hi2 Hleaf2 Hd2 Hn2 Hne.
  destruct (script_vote_of_member w name1 index1 d1 voter1)
    as (w1 & Hv1 & _ & Hdis1 & Hroot1); auto.
  destruct (script_vote_cases w name1 index1 d1 Hi1)
    as [Hthrew | (voter & st' & Hg & Hc & Heq)]; [congruence|].
  assert (Hw1 : w1 = mkWorld
                  (Map_set (store_Voters w) "Bob" (Voter_setDecision voter d1))
                  (setLeaf (store_Tree w) index1
                     (Voter_hash Poseidon_hash (Voter_setDecision voter d1)))
                  st') by congruence.
  destruct (script_vote_of_member w1 name2 index2 d2 voter2)
    as (w2 & Hv2 & Ha2 & Hdis2 & Hroot2); auto.
  - rewrite Hw1. cbn [store_Voters]. now rewrite Map_get_set_other.
  - rewrite Hw1. exact Hi2.
  - rewrite Hw1. cbn [store_Tree]. now rewrite leaves_setLeaf_other.
  - exists w1, w2. auto.
Qed.

(** X15.  After any vote through the script has returned, a vote for
    ["Bob"] is sent with the public key of the voter who voted last, and
    is refused, changing nothing, unless that voter's zeroed record
    recomputes the committed root through the witness of the index
    given. *)
Theorem script_vote_for_Bob_after_a_vote (w w' : World) name index d voter
    index' d' :
  in_range (store_Tree w) index = true ->
  script_vote Poseidon_hash w name index d = Done w' ->
  Map_get (store_Voters w) name = Some voter ->
  in_range (store_Tree w') index' = true ->
  calculateRoot Poseidon_hash (getWitness Poseidon_hash (store_Tree w') index')
    (Voter_hash Poseidon_hash (zeroed voter)) <> root (zkapp w') ->
  script_vote Poseidon_hash w' "Bob" index' d' = Threw w'.
Proof.
  intros Hi Hdone Hg Hi' Hne.
  destruct (script_vote_cases w name index d Hi)
    as [Hthrew | (voter0 & st' & Hg0 & _ & Heq)]; [congruence|].
  assert (voter0 = voter) as -> by congruence.
  assert (HBob : Map_get (store_Voters w') "Bob"
                 = Some (Voter_setDecision voter d)).
  { rewrite Heq in Hdone. injection Hdone as <-. apply Map_get_set_same. }
  unfold script_vote, Tree_getWitness. rewrite HBob, Hi'.
  assert (Hnone :
    call_vote Poseidon_hash (zkapp w') (Voter_setDecision voter d) d'
      (getWitness Poseidon_hash (store_Tree w') index') = None).
  { rewrite call_vote_eq. unfold validation.
    rewrite (Voter_hash_ext (zeroed (Voter_setDecision voter d)) (zeroed voter))
      by reflexivity.
    apply Z.eqb_neq in Hne. rewrite Hne, andb_false_r. reflexivity. }
  rewrite Hnone. reflexivity.
Qed.

(** *** The script's initial store *)

Variable testAccounts : nat -> PublicKey.

Lemma initial_Voters_get name index :
  nth_error Names index = Some name ->
  Map_get (initial_Voters testAccounts) name
  = Some (mkVoter (testAccounts (index + 1)%nat) (mkUInt32 index 0)).
Proof.
  intros Hn.
  do 4 (destruct index as [|index]; [injection Hn as <-; reflexivity|]).
  destruct index; discriminate.
Qed.

(** The initial tree has height 8 and holds, at the index of each name,
    the hash of the record stored under that name. *)
Lemma initial_Tree_leaves :
  exists t,
    initial_Tree Poseidon_hash testAccounts = Some t /\
    height t = 8%nat /\
    forall name index,
      nth_error Names index = Some name ->
      leaves t index
      = Voter_hash Poseidon_hash
          (mkVoter (testAccounts (index + 1)%nat) (mkUInt32 index 0)).
Proof.
  eexists. split; [reflexivity|]. split; [reflexivity|].
  intros name index Hn.
  do 4 (destruct index as [|index]; [reflexivity|]).
  destruct index; discriminate.
Qed.

(** X11.  After the script's set-up the contract's root is the root of the
    tree, and each of the four voters can cast a first vote: for the name
    at position [index] of the list of names and a decision of 1 or 2, the
    script's [vote] returns, the contract then has [agreeVotes] at 1 and
    [disagreeVotes] at 0, and its root is again the root of the tree. *)
Theorem script_first_vote name index d :
  nth_error Names index = Some name ->
  value d = 1 \/ value d = 2 ->
  exists w0 w1,
    script_setup Poseidon_hash testAccounts = Some w0 /\
    root (zkapp w0) = getRoot Poseidon_hash (store_Tree w0) /\
    script_vote Poseidon_hash w0 name index d = Done w1 /\
    agreeVotes (zkapp w1) = 1 /\
    disagreeVotes (zkapp w1) = 0 /\
    root (zkapp w1) = getRoot Poseidon_hash (store_Tree w1).
Proof.
  intros Hn Hd.
  destruct initial_Tree_leaves as (t & Ht & Hh & Hleaves).
  set (w0 := mkWorld (initial_Voters testAccounts) t
               (mkState (getRoot Poseidon_hash t) 0 0 0 0)).
  assert (Hin : in_range (store_Tree w0) index = true).
  { unfold in_range, leafCount. cbn [store_Tree w0]. rewrite Hh.
    do 4 (destruct index as [|index]; [reflexivity|]).
    destruct index; discriminate. }
  destruct (script_vote_of_member w0 name index d
              (mkVoter (testAccounts (index + 1)%nat) (mkUInt32 index 0)))
    as (w1 & Hv & Ha & Hd' & Hr); auto.
  { now apply initial_Voters_get. }
  { cbn [store_Tree w0]. rewrite (Hleaves name index Hn).
    now apply Voter_hash_ext. }
  exists w0, w1. split; [|auto 10].
  unfold script_setup. rewrite Ht, call_init_eq. reflexivity.
Qed.

End Properties.

(** ** The demonstration run, evaluated *)

Import Demo.

(** C1.  On the deployed contract a vote with decision 2 for Bob, with the
    tree's proof, is accepted; it leaves [disagreeVotes] as it was and adds
    one to [agreeVotes]. *)
Theorem vote_disagree_increments_agreeVotes :
  exists st',
    call_vote demo_hash deployed Bob disagree (getWitness demo_hash Tree 0)
      = Some st' /\
    agreeVotes st' = agreeVotes deployed + 1 /\
    disagreeVotes st' = disagreeVotes deployed.
Proof.
  eexists. split; [vm_compute; reflexivity|]. split; reflexivity.
Qed.

(** C4.  From [init], after Bob's accepted vote, Alice's vote with the
    proof of the updated tree is accepted as well, and changes neither
    counter. *)
Theorem second_accepted_vote_moves_no_counter :
  call_init blank initialRoot = Some deployed /\
  call_vote demo_hash deployed Bob agree (getWitness demo_hash Tree 0)
    = Some after_Bob /\
  exists st2,
    call_vote demo_hash after_Bob Alice agree
      (getWitness demo_hash (Tree_after_Bob agree) 1) = Some st2 /\
    agreeVotes st2 = agreeVotes after_Bob /\
    disagreeVotes st2 = disagreeVotes after_Bob.
Proof.
  split; [reflexivity|]. split; [vm_compute; reflexivity|].
  eexists. split; [vm_compute; reflexivity|]. split; reflexivity.
Qed.

(** Bob votes twice with the same decision, each time with the proof of the
    then-current tree: the first vote is accepted, the second is not. *)
Lemma revote_rejected_in_demo :
  call_vote demo_hash deployed Bob agree (getWitness demo_hash Tree 0)
    = Some after_Bob /\
  call_vote demo_hash after_Bob (Voter_setDecision Bob agree) agree
    (getWitness demo_hash (Tree_after_Bob agree) 0) = None.
Proof.
  split; vm_compute; reflexivity.
Qed.

Lemma vote_rejects_invalid_decision_witness :
  call_vote demo_hash deployed Bob (mkUInt32 9 3) (getWitness demo_hash Tree 0)
    = None /\
  let st' :=
    state_after deployed
      (call_vote demo_hash deployed Bob (mkUInt32 9 3)
         (getWitness demo_hash Tree 0)) in
  agreeVotes st' = agreeVotes deployed /\
  disagreeVotes st' = disagreeVotes deployed /\
  root st' = root deployed.
Proof.
  apply (vote_rejects_invalid_decision demo_hash deployed Bob (mkUInt32 9 3)
           (getWitness demo_hash Tree 0)); cbn; discriminate.
Defined.

Lemma vote_rejects_failed_membership_witness :
  (call_vote demo_hash deployed Alice agree (getWitness demo_hash Tree 0) = None /\
   state_after deployed
     (call_vote demo_hash deployed Alice agree (getWitness demo_hash Tree 0))
   = deployed)
  /\
  (call_vote demo_hash after_Bob Alice agree (getWitness demo_hash Tree 1) = None /\
   state_after after_Bob
     (call_vote demo_hash after_Bob Alice agree (getWitness demo_hash Tree 1))
   = after_Bob).
Proof.
  split.
  - apply (proj1 (vote_rejects_failed_membership demo_hash deployed Alice agree
                    (getWitness demo_hash Tree 0))).
    vm_compute. discriminate.
  - apply (proj2 (vote_rejects_failed_membership demo_hash after_Bob Alice agree
                    (getWitness demo_hash Tree 1))
             deployed Bob agree (getWitness demo_hash Tree 0)).
    + vm_compute. reflexivity.
    + vm_compute. discriminate.
    + vm_compute. reflexivity.
Defined.

Lemma revote_rejected_witness :
  exists st',
    call_vote demo_hash deployed Bob agree (getWitness demo_hash Tree 0) = Some st' /\
    root st' = getRoot demo_hash (Tree_after_Bob agree) /\
    call_vote demo_hash st' (Voter_setDecision Bob agree) agree
      (getWitness demo_hash (Tree_after_Bob agree) 0) = None /\
    state_after st'
      (call_vote demo_hash st' (Voter_setDecision Bob agree) agree
         (getWitness demo_hash (Tree_after_Bob agree) 0)) = st'.
Proof.
  apply (revote_rejected demo_hash Tree 0 deployed Bob agree).
  - apply Nat.ltb_lt. reflexivity.
  - reflexivity.
  - reflexivity.
  - left. reflexivity.
  - reflexivity.
  - vm_compute. discriminate.
Defined.

Lemma vote_new_root_witness :
  (match call_vote demo_hash deployed (mkVoter (publicKey Bob) disagree) agree
           (getWitness demo_hash Tree 0) with
   | Some st' =>
       root st' = calculateRoot demo_hash (getWitness demo_hash Tree 0)
                    (demo_hash (PublicKey_toFields (publicKey Bob) ++ [1]))
   | None => disagreeVotes deployed + 1 < 0
             \/ UInt32_MAX < disagreeVotes deployed + 1
   end) /\
  exists st',
    call_vote demo_hash deployed (mkVoter (publicKey Bob) disagree) agree
      (getWitness demo_hash Tree 0) = Some st' /\
    root st' = calculateRoot demo_hash (getWitness demo_hash Tree 0)
                 (demo_hash (PublicKey_toFields (publicKey Bob) ++ [1])).
Proof.
  destruct (vote_new_root demo_hash deployed (mkVoter (publicKey Bob) disagree)
              agree (getWitness demo_hash Tree 0)) as [Hroot Hreach].
  - left. reflexivity.
  - vm_compute. reflexivity.
  - split; [exact Hroot|].
    apply (Hreach initialRoot).
    apply (reachable_init demo_hash initialRoot blank deployed). reflexivity.
Defined.


Lemma vote_ignores_record_decision_witness :
  call_vote demo_hash deployed Bob agree (getWitness demo_hash Tree 0)
  = call_vote demo_hash deployed (Voter_setDecision Bob disagree) agree
      (getWitness demo_hash Tree 0).
Proof.
  apply (vote_ignores_record_decision demo_hash deployed agree
           (getWitness demo_hash Tree 0) Bob (Voter_setDecision Bob disagree)).
  reflexivity.
Defined.

(** ** The further properties, on the demonstration run *)


Lemma accepted_vote_state_witness :
  after_Bob =
  mkState
    (calculateRoot demo_hash (getWitness demo_hash Tree 0)
       (demo_hash (PublicKey_toFields (publicKey Bob) ++ [1])))
    (disagreeVotes deployed + 1) (disagreeVotes deployed)
    (title deployed) (description deployed).
Proof.
  apply (accepted_vote_state demo_hash deployed (mkVoter (publicKey Bob) disagree)
           agree (getWitness demo_hash Tree 0) after_Bob).
  vm_compute. reflexivity.
Defined.

Lemma after_Bob_reachable : reachable demo_hash initialRoot after_Bob.
Proof.
  apply (reachable_vote demo_hash initialRoot deployed Bob agree
           (getWitness demo_hash Tree 0) after_Bob).
  - apply (reachable_init demo_hash initialRoot blank deployed). reflexivity.
  - vm_compute. reflexivity.
Defined.

Lemma reachable_invariant_witness :
  disagreeVotes after_Bob = 0 /\
  (agreeVotes after_Bob = 0 \/ agreeVotes after_Bob = 1) /\
  title after_Bob = 0 /\ description after_Bob = 0.
Proof.
  apply (reachable_invariant demo_hash initialRoot after_Bob).
  exact after_Bob_reachable.
Defined.

Lemma reachable_vote_accepted_witness :
  exists st',
    call_vote demo_hash after_Bob Alice disagree
      (getWitness demo_hash (Tree_after_Bob agree) 1) = Some st' /\
    agreeVotes st' = 1 /\ disagreeVotes st' = 0.
Proof.
  apply (reachable_vote_accepted demo_hash initialRoot after_Bob Alice disagree
           (getWitness demo_hash (Tree_after_Bob agree) 1)).
  - exact after_Bob_reachable.
  - vm_compute. reflexivity.
Defined.

Lemma vote_rejected_when_counter_saturated_witness :
  call_vote demo_hash (mkState initialRoot 0 UInt32_MAX 0 0) Bob agree
    (getWitness demo_hash Tree 0) = None.
Proof.
  apply (vote_rejected_when_counter_saturated demo_hash
           (mkState initialRoot 0 UInt32_MAX 0 0) Bob agree
           (getWitness demo_hash Tree 0)).
  reflexivity.
Defined.

Lemma vote_update_guarded_witness :
  commit after_Bob Run.update_for_Bob = None /\
  commit (mkState initialRoot 7 0 8 9) Run.update_for_Bob
  = Some (mkState (root after_Bob) 1 0 8 9).
Proof.
  split.
  - rewrite (vote_update_guarded demo_hash deployed Bob agree
               (getWitness demo_hash Tree 0) Run.update_for_Bob after_Bob);
      [reflexivity | vm_compute; reflexivity].
  - rewrite (vote_update_guarded demo_hash deployed Bob agree
               (getWitness demo_hash Tree 0) Run.update_for_Bob
               (mkState initialRoot 7 0 8 9));
      [vm_compute; reflexivity | vm_compute; reflexivity].
Defined.

Lemma vote_replay_rejected_witness :
  call_vote demo_hash after_Bob Bob agree (getWitness demo_hash Tree 0) = None.
Proof.
  apply (vote_replay_rejected demo_hash deployed Bob agree
           (getWitness demo_hash Tree 0) after_Bob).
  - vm_compute. reflexivity.
  - vm_compute. discriminate.
Defined.

Lemma script_vote_completes_witness :
  exists w',
    script_vote demo_hash Run.start "Bob" 0 agree = Done w' /\
    zkapp w' = zkapp Run.after_first /\
    store_Tree w' = setLeaf (store_Tree Run.start) 0
                      (Voter_hash demo_hash (Voter_setDecision (Run.voter_at 0) agree)) /\
    root (zkapp w') = getRoot demo_hash (store_Tree w').
Proof.
  apply (script_vote_completes demo_hash Run.start "Bob" 0 agree
           (Run.voter_at 0) (zkapp Run.after_first)).
  - reflexivity.
  - reflexivity.
  - vm_compute. reflexivity.
Defined.

Lemma script_vote_stores_under_Bob_witness :
  exists voter,
    Map_get (store_Voters Run.start) "Alice" = Some voter /\
    Map_get (store_Voters Run.after_Alice) "Bob"
      = Some (Voter_setDecision voter agree) /\
    forall key, key <> "Bob"%string ->
      Map_get (store_Voters Run.after_Alice) key
      = Map_get (store_Voters Run.start) key.
Proof.
  apply (script_vote_stores_under_Bob demo_hash Run.start Run.after_Alice
           "Alice" 1 agree).
  - reflexivity.
  - vm_compute. reflexivity.
Defined.

Lemma script_vote_throw_unchanged_witness :
  script_vote demo_hash Run.start "Alice" 0 agree = Threw Run.start /\
  Run.start = Run.start.
Proof.
  split; [vm_compute; reflexivity|].
  apply (script_vote_throw_unchanged demo_hash Run.start Run.start "Alice" 0 agree).
  - reflexivity.
  - vm_compute. reflexivity.
Defined.

Lemma script_first_vote_witness :
  exists w0 w1,
    script_setup demo_hash Run.accounts = Some w0 /\
    root (zkapp w0) = getRoot demo_hash (store_Tree w0) /\
    script_vote demo_hash w0 "Charlie" 2 disagree = Done w1 /\
    agreeVotes (zkapp w1) = 1 /\
    disagreeVotes (zkapp w1) = 0 /\
    root (zkapp w1) = getRoot demo_hash (store_Tree w1).
Proof.
  apply (script_first_vote demo_hash Run.accounts "Charlie" 2 disagree).
  - reflexivity.
  - right. reflexivity.
Defined.

Lemma script_second_vote_throws_witness :
  exists w',
    script_vote demo_hash Run.start "Bob" 0 agree = Done w' /\
    script_vote demo_hash w' "Bob" 0 agree = Threw w'.
Proof.
  apply (script_second_vote_throws demo_hash Run.start "Bob" 0 agree
           (Run.voter_at 0)).
  - reflexivity.
  - reflexivity.
  - reflexivity.
  - reflexivity.
  - reflexivity.
  - left. reflexivity.
  - vm_compute. discriminate.
Defined.

Lemma script_vote_keeps_other_members_witness :
  (forall key, key <> "Bob"%string ->
     Map_get (store_Voters Run.after_first) key
     = Map_get (store_Voters Run.start) key) /\
  (forall index2, index2 <> 0%nat ->
     leaves (store_Tree Run.after_first) index2
     = leaves (store_Tree Run.start) index2) /\
  height (store_Tree Run.after_first) = height (store_Tree Run.start) /\
  root (zkapp Run.after_first) = getRoot demo_hash (store_Tree Run.after_first).
Proof.
  apply (script_vote_keeps_other_members demo_hash Run.start Run.after_first
           "Bob" 0 agree).
  - reflexivity.
  - vm_compute. reflexivity.
Defined.

Lemma script_two_votes_witness :
  exists w1 w2,
    script_vote demo_hash Run.start "Bob" 0 agree = Done w1 /\
    script_vote demo_hash w1 "Alice" 1 disagree = Done w2 /\
    agreeVotes (zkapp w2) = 1 /\
    disagreeVotes (zkapp w2) = 0 /\
    root (zkapp w2) = getRoot demo_hash (store_Tree w2).
Proof.
  apply (script_two_votes demo_hash Run.start "Bob" 0 agree (Run.voter_at 0)
           "Alice" 1 disagree (Run.voter_at 1)).
  - reflexivity.
  - reflexivity.
  - reflexivity.
  - reflexivity.
  - reflexivity.
  - left. reflexivity.
  - reflexivity.
  - reflexivity.
  - reflexivity.
  - right. reflexivity.
  - discriminate.
  - discriminate.
Defined.

Lemma script_vote_for_Bob_after_a_vote_witness :
  script_vote demo_hash Run.after_Alice "Bob" 0 agree = Threw Run.after_Alice.
Proof.
  apply (script_vote_for_Bob_after_a_vote demo_hash Run.start Run.after_Alice
           "Alice" 1 agree (Run.voter_at 1) 0 agree).
  - reflexivity.
  - vm_compute. reflexivity.
  - reflexivity.
  - reflexivity.
  - vm_compute. discriminate.
Defined.

Lemma init_sets_root_and_counters_witness :
  (exists a',
     deploy_init (mkAccount false blank) initialRoot = Some a' /\
     root (appState a') = initialRoot /\
     agreeVotes (appState a') = 0 /\
     disagreeVotes (appState a') = 0 /\
     provedState a' = true) /\
  deploy_init (mkAccount true after_Bob) initialRoot = None.
Proof.
  split.
  - destruct (proj1 (proj2 (init_sets_root_and_counters
                              (mkAccount false blank) initialRoot)))
      as [a' Ha']; [reflexivity|].
    exists a'. split; [exact Ha'|].
    exact (proj1 (init_sets_root_and_counters (mkAccount false blank) initialRoot)
             a' Ha').
  - apply (proj2 (proj2 (init_sets_root_and_counters
                           (mkAccount true after_Bob) initialRoot))).
    reflexivity.
Defined.
